(** * Receipt processor: a shallow embedding of [server.go]

    The Go program keeps a map from generated identifiers to receipts
    ([receiptStore]) and computes reward points for a stored receipt with
    [calculatePoints].  Go strings are byte strings; they are modelled by
    Rocq's [string], a sequence of 8-bit [ascii] characters.  Go's [int] is
    the 64-bit integer of amd64, modelled by [Z] with its wrap-around written
    out.  The Go standard-library functions the handlers call ([strconv],
    [strings], [time], [regexp], [math]) are embedded from their Go sources
    as far as the handlers use them. *)

From Stdlib Require Import ZArith Bool Lia.
From stdpp Require Import base gmap strings.
From Stdlib Require Import Ascii String List.
Import ListNotations.

Open Scope Z_scope.

(** ** Bytes and 64-bit integers *)

Definition code (c : ascii) : Z := Z.of_N (N_of_ascii c).

Definition bytes (s : string) : list Z := map code (list_ascii_of_string s).

Definition in_range (lo hi b : Z) : bool := (lo <=? b) && (b <=? hi).

Definition isDigit (b : Z) : bool := in_range 48 57 b.

(** Go's [int] on a 64-bit platform: arithmetic wraps modulo 2^64 into
    [-2^63, 2^63). *)
Definition wrap64 (z : Z) : Z := Z.modulo (z + 2 ^ 63) (2 ^ 64) - 2 ^ 63.

Definition int_min : Z := - 2 ^ 63.
Definition int_max : Z := 2 ^ 63 - 1.

(** ** strings.HasSuffix, strings.ReplaceAll, strings.Split *)

(** [len(s) >= len(suffix) && s[len(s)-len(suffix):] == suffix] *)
Definition HasSuffix (s suffix : string) : bool :=
  let n := String.length s in
  let k := String.length suffix in
  Nat.leb k n && String.eqb (substring (n - k) k s) suffix.

(** [strings.ReplaceAll(s, old, "")] for a one-byte [old]: every occurrence
    of the byte is dropped. *)
Fixpoint ReplaceAll_byte_empty (old : ascii) (s : string) : string :=
  match s with
  | EmptyString => EmptyString
  | String c s' =>
      if Ascii.eqb c old then ReplaceAll_byte_empty old s'
      else String c (ReplaceAll_byte_empty old s')
  end.

(** [strings.Split(s, sep)] for a one-byte [sep]: the pieces between the
    separators, [Split("", sep) = [""]]. *)
Fixpoint Split_byte (sep : ascii) (s : string) : list string :=
  match s with
  | EmptyString => [EmptyString]
  | String c s' =>
      if Ascii.eqb c sep then EmptyString :: Split_byte sep s'
      else match Split_byte sep s' with
           | p :: ps => String c p :: ps
           | nil => [String c EmptyString]
           end
  end.

(** ** strings.TrimSpace

    [TrimSpace] removes the leading and trailing runes for which
    [unicode.IsSpace] holds: U+0009..U+000D, U+0020, U+0085, U+00A0, U+1680,
    U+2000..U+200A, U+2028, U+2029, U+202F, U+205F and U+3000.  A space rune
    is recognised by its UTF-8 encoding ([utf8.DecodeRuneInString] and
    [utf8.DecodeLastRuneInString] return a space rune exactly when the bytes
    are its encoding). *)

Definition ascii_space (b : Z) : bool := in_range 9 13 b || (b =? 32).

(** Width of the space rune the byte list starts with, 0 if none. *)
Definition space_width (l : list Z) : nat :=
  match l with
  | b1 :: rest =>
      if ascii_space b1 then 1%nat
      else match rest with
           | b2 :: rest2 =>
               if (b1 =? 194) && ((b2 =? 133) || (b2 =? 160)) then 2%nat
               else match rest2 with
                    | b3 :: _ =>
                        if ((b1 =? 225) && (b2 =? 154) && (b3 =? 128))
                           || ((b1 =? 226) && (b2 =? 128)
                               && (in_range 128 138 b3 || (b3 =? 168)
                                   || (b3 =? 169) || (b3 =? 175)))
                           || ((b1 =? 226) && (b2 =? 129) && (b3 =? 159))
                           || ((b1 =? 227) && (b2 =? 128) && (b3 =? 128))
                        then 3%nat else 0%nat
                    | nil => 0%nat
                    end
           | nil => 0%nat
           end
  | nil => 0%nat
  end.

(** Width of the space rune the byte list ends with, read on the reversed
    list, 0 if none. *)
Definition space_width_rev (r : list Z) : nat :=
  match r with
  | b1 :: rest =>
      if ascii_space b1 then 1%nat
      else match rest with
           | b2 :: rest2 =>
               if (b2 =? 194) && ((b1 =? 133) || (b1 =? 160)) then 2%nat
               else match rest2 with
                    | b3 :: _ =>
                        if Nat.eqb (space_width [b3; b2; b1]) 3 then 3%nat else 0%nat
                    | nil => 0%nat
                    end
           | nil => 0%nat
           end
  | nil => 0%nat
  end.

Fixpoint trim_with (w : list Z -> nat) (fuel : nat) (l : list Z) : list Z :=
  match fuel with
  | O => l
  | S f =>
      match w l with
      | O => l
      | k => trim_with w f (skipn k l)
      end
  end.

Definition TrimLeftSpace (l : list Z) : list Z := trim_with space_width (length l) l.

Definition TrimRightSpace (l : list Z) : list Z :=
  rev (trim_with space_width_rev (length l) (rev l)).

(** [strings.TrimSpace], on the bytes of the string. *)
Definition TrimSpace (s : string) : list Z := TrimRightSpace (TrimLeftSpace (bytes s)).

(** ** regexp [[a-zA-Z0-9]] with FindAllString(s, -1)

    The class only matches one ASCII byte; the bytes of a multi-byte rune and
    invalid bytes are all >= 0x80 and never match, so the number of matches
    is the number of ASCII letters and digits in the string. *)
Definition isAlnum (b : Z) : bool :=
  in_range 97 122 b || in_range 65 90 b || isDigit b.

Definition FindAllAlnum_count (s : string) : Z :=
  Z.of_nat (length (filter isAlnum (bytes s))).

(** ** strconv.Atoi *)

Inductive NumErr := NoErr | ErrSyntax | ErrRange.

Definition maxUint64 : Z := 2 ^ 64 - 1.

(** [strconv.ParseUint(s, 10, 64)], digit loop: a non-digit is a syntax
    error, and an overflow returns [maxVal] at once with a range error. *)
Fixpoint ParseUint10_loop (l : list Z) (n : Z) : Z * NumErr :=
  match l with
  | nil => (n, NoErr)
  | b :: l' =>
      if negb (isDigit b) then (0, ErrSyntax)
      else if maxUint64 / 10 + 1 <=? n then (maxUint64, ErrRange)
      else let n1 := n * 10 + (b - 48) in
           if maxUint64 <? n1 then (maxUint64, ErrRange)
           else ParseUint10_loop l' n1
  end.

Definition ParseUint10 (l : list Z) : Z * NumErr :=
  match l with
  | nil => (0, ErrSyntax)
  | _ => ParseUint10_loop l 0
  end.

(** [strconv.ParseInt(s, 10, 0)] with [IntSize = 64]. *)
Definition ParseInt10 (l : list Z) : Z * NumErr :=
  match l with
  | nil => (0, ErrSyntax)
  | b :: l' =>
      let '(neg, digits) :=
        if b =? 43 then (false, l') else if b =? 45 then (true, l') else (false, l) in
      let '(un, err) := ParseUint10 digits in
      match err with
      | ErrSyntax => (0, ErrSyntax)
      | _ =>
          if negb neg && (2 ^ 63 <=? un) then (2 ^ 63 - 1, ErrRange)
          else if neg && (2 ^ 63 <? un) then (- 2 ^ 63, ErrRange)
          else ((if neg then - un else un), err)
      end
  end.

(** Fast path of [Atoi] for [0 < len(s) < 19]. *)
Fixpoint atoi_fast_loop (l : list Z) (n : Z) : option Z :=
  match l with
  | nil => Some n
  | b :: l' => if isDigit b then atoi_fast_loop l' (n * 10 + (b - 48)) else None
  end.

Definition Atoi_fast (l : list Z) : Z * NumErr :=
  match l with
  | nil => (0, ErrSyntax)
  | b :: l' =>
      let signed := (b =? 45) || (b =? 43) in
      let digits := if signed then l' else l in
      if signed && (Nat.eqb (length digits) 0) then (0, ErrSyntax)
      else match atoi_fast_loop digits 0 with
           | None => (0, ErrSyntax)
           | Some n => ((if b =? 45 then - n else n), NoErr)
           end
  end.

(** [strconv.Atoi(s)]: returns the value and the error (the value is 0 on a
    syntax error and the clamped bound on a range error). *)
Definition Atoi_bytes (l : list Z) : Z * NumErr :=
  if (0 <? length l)%nat && (length l <? 19)%nat then Atoi_fast l else ParseInt10 l.

Definition Atoi (s : string) : Z * NumErr := Atoi_bytes (bytes s).

(** ** time.Parse("15:04", value)

    The layout has the chunks [stdHour] ("15"), the literal ":" and
    [stdZeroMinute] ("04").  [getnum(s, fixed)] reads one or two digits, two
    when [fixed]; the hour must be below 24 and the minute below 60, and no
    text may follow.  The result is [Some (hour, minute)] of the parsed time,
    [None] when Parse returns an error. *)
Definition getnum (l : list Z) (fixed : bool) : option (Z * list Z) :=
  match l with
  | b0 :: l' =>
      if negb (isDigit b0) then None
      else match l' with
           | b1 :: l'' =>
               if isDigit b1 then Some ((b0 - 48) * 10 + (b1 - 48), l'')
               else if fixed then None else Some (b0 - 48, l')
           | nil => if fixed then None else Some (b0 - 48, l')
           end
  | nil => None
  end.

Definition time_Parse_15_04 (s : string) : option (Z * Z) :=
  match getnum (bytes s) false with
  | None => None
  | Some (hour, v1) =>
      if negb ((0 <=? hour) && (hour <? 24)) then None
      else match v1 with
           | b :: v2 =>
               if negb (b =? 58) then None
               else match getnum v2 true with
                    | None => None
                    | Some (min, v3) =>
                        if negb ((0 <=? min) && (min <? 60)) then None
                        else match v3 with
                             | nil => Some (hour, min)
                             | _ :: _ => None
                             end
                    end
           | nil => None
           end
  end.

(** ** IEEE 754 binary64 ([float64]) *)

(** A finite non-zero [F64Finite neg m e] has the value (-1)^neg * m * 2^e
    with [0 < m < 2^53] and [-1074 <= e <= 971]. *)
Inductive float64 :=
| F64Zero (neg : bool)
| F64Finite (neg : bool) (m e : Z)
| F64Inf (neg : bool)
| F64NaN.

(** Round-to-nearest-even of the non-negative rational [n / d] ([d > 0]),
    with sign [neg]; values beyond the largest finite number become
    infinities, values below the subnormal range round to zero. *)
Definition round_to_float64 (neg : bool) (n d : Z) : float64 :=
  if n <=? 0 then F64Zero neg
  else
    let lg := Z.log2 n - Z.log2 d in
    let ge_pow (k : Z) :=
      if 0 <=? k then d * 2 ^ k <=? n else d <=? n * 2 ^ (- k) in
    let k := if ge_pow lg then lg else lg - 1 in
    let e := Z.max (k - 52) (-1074) in
    let num := if 0 <=? e then n else n * 2 ^ (- e) in
    let den := if 0 <=? e then d * 2 ^ e else d in
    let q := num / den in
    let r := num mod den in
    let q' := if (den <? 2 * r) || ((2 * r =? den) && Z.odd q) then q + 1 else q in
    let '(m, e') := if q' =? 2 ^ 53 then (2 ^ 52, e + 1) else (q', e) in
    if m =? 0 then F64Zero neg
    else if 971 <? e' then F64Inf neg
    else F64Finite neg m e'.

(** The product [x * y] of two float64 values. *)
Definition f64_mul (x y : float64) : float64 :=
  match x, y with
  | F64NaN, _ | _, F64NaN => F64NaN
  | F64Inf _, F64Zero _ | F64Zero _, F64Inf _ => F64NaN
  | F64Inf s1, F64Inf s2 | F64Inf s1, F64Finite s2 _ _
  | F64Finite s1 _ _, F64Inf s2 => F64Inf (xorb s1 s2)
  | F64Zero s1, F64Zero s2 | F64Zero s1, F64Finite s2 _ _
  | F64Finite s1 _ _, F64Zero s2 => F64Zero (xorb s1 s2)
  | F64Finite s1 m1 e1, F64Finite s2 m2 e2 =>
      let e := e1 + e2 in
      if 0 <=? e then round_to_float64 (xorb s1 s2) (m1 * m2 * 2 ^ e) 1
      else round_to_float64 (xorb s1 s2) (m1 * m2) (2 ^ (- e))
  end.

(** The untyped constant [0.2] converted to float64. *)
Definition f64_0_2 : float64 := round_to_float64 false 1 5.

(** [math.Ceil(x)] of a finite value, as the integer it is; [None] for an
    infinity or NaN (Ceil returns them unchanged). *)
Definition Ceil_int (x : float64) : option Z :=
  match x with
  | F64Zero _ => Some 0
  | F64Finite neg m e =>
      if 0 <=? e then Some (if neg then - (m * 2 ^ e) else m * 2 ^ e)
      else let p := 2 ^ (- e) in
           Some (if neg then - (m / p) else (m + p - 1) / p)
  | F64Inf _ | F64NaN => None
  end.

(** Conversion [int(f)] of an integral float64.  Go leaves the result of an
    out-of-range conversion to the implementation; on amd64 the compiler uses
    CVTTSD2SQ, which yields the "integer indefinite" value -2^63 for NaN,
    infinities and out-of-range values. *)
Definition int_of_integral (c : option Z) : Z :=
  match c with
  | Some z => if in_range int_min int_max z then z else int_min
  | None => int_min
  end.

(** ** strconv.ParseFloat(s, 64) *)

(** [lower(c) = c | ('x' - 'X')] *)
Definition lower (c : Z) : Z := Z.lor c 32.

Definition hexLetter (c : Z) : bool := in_range 97 102 (lower c).

(** [commonPrefixLenIgnoreCase(s, prefix) = len(prefix)]: [s] starts with
    [prefix] (given in lower case), ignoring the case of ASCII letters. *)
Fixpoint prefix_ignore_case (l prefix : list Z) : bool :=
  match prefix, l with
  | nil, _ => true
  | p :: ps, c :: cs =>
      (if in_range 65 90 c then c + 32 =? p else c =? p) && prefix_ignore_case cs ps
  | _ :: _, nil => false
  end.

Definition lit_inf : list Z := bytes "inf".
Definition lit_infinity : list Z := bytes "infinity".
Definition lit_nan : list Z := bytes "nan".

(** [special(s)], where ParseFloat also requires the whole string to be
    consumed: an optionally signed "inf" or "infinity", or "nan", in any
    case. *)
Definition special (l : list Z) : option float64 :=
  let full (l' prefix : list Z) :=
    Nat.eqb (length l') (length prefix) && prefix_ignore_case l' prefix in
  match l with
  | nil => None
  | c :: l' =>
      let '(neg, body) :=
        if c =? 45 then (true, l') else if c =? 43 then (false, l') else (false, l) in
      if full body lit_inf || full body lit_infinity then Some (F64Inf neg)
      else if full l lit_nan then Some F64NaN
      else None
  end.

(** [underscoreOK(s)]: underscores only between digits, or between a base
    prefix and a digit. [saw] is 0 for '^', 1 for '0', 2 for '_', 3 for '!'. *)
Fixpoint underscoreOK_loop (hex : bool) (l : list Z) (saw : nat) : bool :=
  match l with
  | nil => negb (Nat.eqb saw 2)
  | c :: l' =>
      if isDigit c || (hex && hexLetter c) then underscoreOK_loop hex l' 1
      else if c =? 95 then
        (if Nat.eqb saw 1 then underscoreOK_loop hex l' 2 else false)
      else if Nat.eqb saw 2 then false
      else underscoreOK_loop hex l' 3
  end.

Definition underscoreOK (l : list Z) : bool :=
  let l1 := match l with
            | c :: l' => if (c =? 45) || (c =? 43) then l' else l
            | nil => l
            end in
  match l1 with
  | c0 :: c1 :: l2 =>
      if (c0 =? 48) && ((lower c1 =? 98) || (lower c1 =? 111) || (lower c1 =? 120))
      then underscoreOK_loop (lower c1 =? 120) l2 1
      else underscoreOK_loop false l1 0
  | _ => underscoreOK_loop false l1 0
  end.

(** Mantissa digits of [readFloat]: all digits as one integer, the number
    of digits after the dot, whether a digit was seen, whether an underscore
    was seen, and the rest of the input. *)
Fixpoint readFloat_digits (hex : bool) (l : list Z) (sawdot : bool)
    (mant fd : Z) (sawdigits underscores : bool) : Z * Z * bool * bool * list Z :=
  let base := if hex then 16 else 10 in
  match l with
  | nil => (mant, fd, sawdigits, underscores, l)
  | c :: l' =>
      if c =? 95 then readFloat_digits hex l' sawdot mant fd sawdigits true
      else if c =? 46 then
        (if sawdot then (mant, fd, sawdigits, underscores, l)
         else readFloat_digits hex l' true mant fd sawdigits underscores)
      else if isDigit c || (hex && hexLetter c) then
        let d := if isDigit c then c - 48 else lower c - 97 + 10 in
        readFloat_digits hex l' sawdot (mant * base + d)
          (if sawdot then fd + 1 else fd) true underscores
      else (mant, fd, sawdigits, underscores, l)
  end.

(** Exponent digits: underscores are skipped, and [e] only grows while it
    is below 10000. *)
Fixpoint readFloat_exp (l : list Z) (e : Z) (underscores : bool) : Z * bool * list Z :=
  match l with
  | c :: l' =>
      if isDigit c then
        readFloat_exp l' (if e <? 10000 then e * 10 + (c - 48) else e) underscores
      else if c =? 95 then readFloat_exp l' e true
      else (e, underscores, l)
  | nil => (e, underscores, l)
  end.

(** [readFloat(s)]: [Some (neg, hex, mant, exponent, rest)] where the value
    read is mant * base^(-fd) * (10 or 2)^exponent, written as
    [(neg, hex, mant, fd, exponent)]; [None] when [ok] is false. *)
Definition readFloat (l : list Z) : option (bool * bool * Z * Z * Z * list Z) :=
  match l with
  | nil => None
  | c :: l' =>
      let '(neg, l1) :=
        if c =? 43 then (false, l') else if c =? 45 then (true, l') else (false, l) in
      let '(hex, l2) :=
        match l1 with
        | c0 :: c1 :: (_ :: _) as l3 =>
            if (c0 =? 48) && (lower c1 =? 120) then (true, l3) else (false, l1)
        | _ => (false, l1)
        end in
      let '(mant, fd, sawdigits, us1, l4) := readFloat_digits hex l2 false 0 0 false false in
      if negb sawdigits then None
      else
        let expChar := if hex then 112 else 101 in
        let exp_part :=
          match l4 with
          | c :: l5 =>
              if lower c =? expChar then
                let '(esign, l6) :=
                  match l5 with
                  | s :: l6 => if s =? 43 then (1, l6) else if s =? 45 then (-1, l6) else (1, l5)
                  | nil => (1, l5)
                  end in
                match l6 with
                | d :: _ =>
                    if isDigit d then
                      let '(e, us2, l7) := readFloat_exp l6 0 us1 in Some (esign * e, us2, l7)
                    else None
                | nil => None
                end
              else if hex then None else Some (0, us1, l4)
          | nil => if hex then None else Some (0, us1, l4)
          end in
        match exp_part with
        | None => None
        | Some (x, us, rest) =>
            let consumed := firstn (length l - length rest) l in
            if us && negb (underscoreOK consumed) then None
            else Some (neg, hex, mant, fd, x, rest)
        end
  end.

(** [strconv.ParseFloat(s, 64)]: the correctly rounded value of the number
    read, with a range error when it overflows to an infinity; a syntax error
    (and the value 0) when [special] and [readFloat] fail or input is left. *)
Definition ParseFloat (s : string) : float64 * NumErr :=
  let l := bytes s in
  match special l with
  | Some f => (f, NoErr)
  | None =>
      match readFloat l with
      | Some (neg, hex, mant, fd, x, nil) =>
          let f :=
            if hex then
              let k := x - 4 * fd in
              if 0 <=? k then round_to_float64 neg (mant * 2 ^ k) 1
              else round_to_float64 neg mant (2 ^ (- k))
            else
              let k := x - fd in
              if 0 <=? k then round_to_float64 neg (mant * 10 ^ k) 1
              else round_to_float64 neg mant (10 ^ (- k)) in
          match f with
          | F64Inf _ => (f, ErrRange)
          | _ => (f, NoErr)
          end
      | _ => (F64Zero false, ErrSyntax)
      end
  end.

(** ** Data model *)

Record Item := mkItem {
  ShortDescription : string;
  Price : string
}.

Record Receipt := mkReceipt {
  Retailer : string;
  PurchaseDate : string;
  PurchaseTime : string;
  Items : list Item;
  Total : string
}.

(** ** calculatePoints

    Each rule is the amount the corresponding block adds to [points]; a rule
    whose condition fails adds 0, which leaves an [int] unchanged.  Every
    [points += x] wraps as Go's [int] does. *)

(** One point for every alphanumeric character in the retailer name. *)
Definition retailer_points (receipt : Receipt) : Z := FindAllAlnum_count (Retailer receipt).

(** 50 points if the total is a round dollar amount with no cents. *)
Definition round_dollar_points (receipt : Receipt) : Z :=
  if HasSuffix (Total receipt) ".00" then 50 else 0.

(** 25 points if the total is a multiple of 0.25; the error of Atoi is
    discarded ([totalInCents, _ := ...]). *)
Definition quarter_points (receipt : Receipt) : Z :=
  let '(totalInCents, _) := Atoi (ReplaceAll_byte_empty "." (Total receipt)) in
  if Z.rem totalInCents 25 =? 0 then 25 else 0.

(** 5 points for every two items on the receipt. *)
Definition item_pair_points (receipt : Receipt) : Z :=
  wrap64 ((Z.of_nat (length (Items receipt)) / 2) * 5).

(** [int(math.Ceil(price * 0.2))] where [price, _ := ParseFloat(item.Price, 64)]. *)
Definition price_points (price : string) : Z :=
  int_of_integral (Ceil_int (f64_mul (fst (ParseFloat price)) f64_0_2)).

(** The body of the loop over the items, for one item. *)
Definition description_points (item : Item) : Z :=
  let trimmedLen := length (TrimSpace (ShortDescription item)) in
  if Nat.eqb (trimmedLen mod 3) 0 then price_points (Price item) else 0.

Definition items_loop (items : list Item) (points : Z) : Z :=
  fold_left (fun p item => wrap64 (p + description_points item)) items points.

(** 6 points if the day in the purchase date is odd, given [dateParts[2]]. *)
Definition odd_day_points (dayPart : string) : Z :=
  let '(day, err) := Atoi dayPart in
  match err with
  | NoErr => if Z.rem day 2 =? 1 then 6 else 0
  | _ => 0
  end.

(** 10 points if the time of purchase is after 2:00pm and before 4:00pm. *)
Definition afternoon_points (receipt : Receipt) : Z :=
  match time_Parse_15_04 (PurchaseTime receipt) with
  | Some (hour, min) =>
      if ((hour =? 14) && (0 <? min)) || (hour =? 15) then 10 else 0
  | None => 0
  end.

(** [calculatePoints(receipt)]: [None] when the call panics, which happens
    when [dateParts[2]] is out of range. *)
Definition calculatePoints (receipt : Receipt) : option Z :=
  let points := 0 in
  let points := wrap64 (points + retailer_points receipt) in
  let points := wrap64 (points + round_dollar_points receipt) in
  let points := wrap64 (points + quarter_points receipt) in
  let points := wrap64 (points + item_pair_points receipt) in
  let points := items_loop (Items receipt) points in
  let dateParts := Split_byte "-" (PurchaseDate receipt) in
  match nth_error dateParts 2 with
  | None => None
  | Some dayPart =>
      let points := wrap64 (points + odd_day_points dayPart) in
      let points := wrap64 (points + afternoon_points receipt) in
      Some points
  end.

(** ** The receipt store and the two handlers *)

(** [receiptStore], guarded by [storeLock]; each handler holds the lock for
    one map operation, so a handler is one atomic step on the store. *)
Abbreviation Store := (gmap string Receipt).

Inductive Response :=
| BadRequest                  (* 400, the receipt is invalid *)
| ReceiptResponse (id : string)  (* 200, {"id": id} *)
| NotFound                    (* 404, no receipt found for that ID *)
| PointsResponse (points : Z) (* 200, {"points": points} *)
| InternalError.              (* 500, a panic recovered by gin's Recovery *)

(** [processReceipt]: [bound] is the result of ShouldBindJSON ([None] on a
    binding error) and [id] the value of [uuid.New().String()]. *)
Definition processReceipt (bound : option Receipt) (id : string) (receiptStore : Store)
    : Store * Response :=
  match bound with
  | None => (receiptStore, BadRequest)
  | Some receipt => (<[id := receipt]> receiptStore, ReceiptResponse id)
  end.

(** [receipt, exists := receiptStore[id]] under the lock. *)
Definition lookupReceipt (id : string) (receiptStore : Store) : option Receipt * Store :=
  (receiptStore !! id, receiptStore).

(** [getPoints] for the URL parameter [id]. *)
Definition getPoints (id : string) (receiptStore : Store) : Store * Response :=
  let '(found, receiptStore') := lookupReceipt id receiptStore in
  match found with
  | None => (receiptStore', NotFound)
  | Some receipt =>
      match calculatePoints receipt with
      | Some points => (receiptStore', PointsResponse points)
      | None => (receiptStore', InternalError)
      end
  end.

(** A run of the server: the requests it handled, in the order the lock
    serialised them, from the empty map [make(map[string]Receipt)]. *)
Inductive Request :=
| PostProcess (bound : option Receipt) (id : string)
| GetPointsReq (id : string).

Definition step (receiptStore : Store) (req : Request) : Store :=
  match req with
  | PostProcess bound id => fst (processReceipt bound id receiptStore)
  | GetPointsReq id => fst (getPoints id receiptStore)
  end.

Definition run (reqs : list Request) : Store := fold_left step reqs ∅.

(** The identifiers a run has stored a receipt under. *)
Fixpoint registered_ids (reqs : list Request) : list string :=
  match reqs with
  | nil => nil
  | PostProcess (Some _) id :: reqs' => id :: registered_ids reqs'
  | _ :: reqs' => registered_ids reqs'
  end.

(** ** The data model of the spec, for stating the claims *)

(** A monetary amount: decimal digits, a dot and exactly two digits. *)
Definition valid_money (s : string) : bool :=
  let l := bytes s in
  let n := length l in
  Nat.leb 4 n
  && forallb isDigit (firstn (n - 3) l)
  && (nth (n - 3) l 0 =? 46)
  && forallb isDigit (skipn (n - 2) l).

(** [YYYY-MM-DD] *)
Definition valid_date (s : string) : bool :=
  match s with
  | String y1 (String y2 (String y3 (String y4 (String h1 (String m1 (String m2
      (String h2 (String d1 (String d2 EmptyString))))))))) =>
      forallb (fun c => isDigit (code c)) [y1; y2; y3; y4; m1; m2; d1; d2]
      && Ascii.eqb h1 "-" && Ascii.eqb h2 "-"
  | _ => false
  end.

(** 24-hour [HH:MM] *)
Definition valid_time (s : string) : bool :=
  match bytes s with
  | [h1; h2; c; m1; m2] =>
      forallb isDigit [h1; h2; m1; m2] && (c =? 58)
      && ((h1 - 48) * 10 + (h2 - 48) <? 24) && ((m1 - 48) * 10 + (m2 - 48) <? 60)
  | _ => false
  end.

Definition valid_item (item : Item) : bool :=
  negb (String.eqb (ShortDescription item) "") && valid_money (Price item).

(** Required fields present, date, time and amounts well formed. *)
Definition valid_receipt (receipt : Receipt) : bool :=
  negb (String.eqb (Retailer receipt) "")
  && valid_date (PurchaseDate receipt)
  && valid_time (PurchaseTime receipt)
  && valid_money (Total receipt)
  && forallb valid_item (Items receipt).

(** A decimal number: an optional sign, digits, optionally a dot and
    digits, with at least one digit. *)
Definition decimal_syntax (s : string) : bool :=
  let l := bytes s in
  let body := match l with
              | c :: l' => if (c =? 43) || (c =? 45) then l' else l
              | nil => l
              end in
  forallb (fun c => isDigit c || (c =? 46)) body
  && Nat.leb (length (filter (fun c => c =? 46) body)) 1
  && existsb isDigit body.

(** The number of characters of a UTF-8 byte string: the bytes that are
    not continuation bytes (0x80..0xBF). *)
Definition char_length (l : list Z) : nat :=
  length (filter (fun b => negb (in_range 128 191 b)) l).

(** The sum of the description-length contributions of the items. *)
Definition description_sum (items : list Item) : Z :=
  fold_right (fun item acc => description_points item + acc) 0 items.

(** The contributions of all rules, added without wrap-around. *)
Definition exact_points (receipt : Receipt) : Z :=
  retailer_points receipt + round_dollar_points receipt + quarter_points receipt
  + (Z.of_nat (length (Items receipt)) / 2) * 5
  + description_sum (Items receipt)
  + match nth_error (Split_byte "-" (PurchaseDate receipt)) 2 with
    | Some dayPart => odd_day_points dayPart
    | None => 0
    end
  + afternoon_points receipt.

(** The concrete receipts of the spec. *)
Definition scenarioA : Receipt :=
  mkReceipt "Target" "2022-01-01" "13:01" [mkItem "Pepsi - 12-oz" "1.25"] "1.25".

Definition with_total (receipt : Receipt) (total : string) : Receipt :=
  mkReceipt (Retailer receipt) (PurchaseDate receipt) (PurchaseTime receipt)
    (Items receipt) total.

(** A valid receipt with two items of 25 quintillion dollars each. *)
Definition overflowReceipt : Receipt :=
  mkReceipt "Target" "2022-01-02" "13:13"
    [mkItem "abc" "25000000000000000000.00"; mkItem "abc" "25000000000000000000.00"]
    "50000000000000000000.00".

(** The number of occurrences of the byte [c] in [s]. *)
Fixpoint count_byte (c : ascii) (s : string) : nat :=
  match s with
  | EmptyString => 0
  | String c' s' => (if Ascii.eqb c' c then 1 else 0) + count_byte c s'
  end.

(** A float64 that is not negative: a zero, +Inf or a positive finite
    value. *)
Definition nonneg_float (f : float64) : Prop :=
  match f with
  | F64Zero _ | F64Inf false => True
  | F64Finite false m _ => 0 <= m
  | _ => False
  end.

(** The number written by a list of decimal digit bytes. *)
Definition digits_value (l : list Z) : Z := fold_left (fun n b => n * 10 + (b - 48)) l 0.

(** The receipt stored under [id] by the last successful [processReceipt]
    of a run that used [id], if any. *)
Definition last_registered (id : string) (reqs : list Request) : option Receipt :=
  fold_left (fun acc req =>
               match req with
               | PostProcess (Some receipt) id' => if String.eqb id' id then Some receipt else acc
               | _ => acc
               end) reqs None.

Definition with_items (receipt : Receipt) (items : list Item) : Receipt :=
  mkReceipt (Retailer receipt) (PurchaseDate receipt) (PurchaseTime receipt)
    items (Total receipt).

(** A receipt whose purchase time is [t]. *)
Definition at_time (t : string) : Receipt := mkReceipt "Target" "2022-01-02" t [] "1.00".

(** * Lemmas *)

(** ** Go int arithmetic *)

Lemma wrap64_add_l (a b : Z) : wrap64 (wrap64 a + b) = wrap64 (a + b).
Proof.
  unfold wrap64.
  replace (((a + 2 ^ 63) mod 2 ^ 64 - 2 ^ 63 + b + 2 ^ 63))
    with ((a + 2 ^ 63) mod 2 ^ 64 + b) by ring.
  rewrite Z.add_mod_idemp_l by (apply Z.pow_nonzero; lia).
  f_equal. f_equal. ring.
Qed.

Lemma wrap64_add_r (a b : Z) : wrap64 (a + wrap64 b) = wrap64 (a + b).
Proof.
  rewrite Z.add_comm, wrap64_add_l. f_equal. ring.
Qed.

Lemma wrap64_id (z : Z) : int_min <= z <= int_max -> wrap64 z = z.
Proof.
  unfold wrap64, int_min, int_max. intros H.
  rewrite Z.mod_small by lia. ring.
Qed.

Lemma items_loop_sum (items : list Item) (x : Z) :
  items_loop items (wrap64 x) = wrap64 (x + description_sum items).
Proof.
  revert x. induction items as [|item items IH]; intros x; simpl.
  - f_equal. ring.
  - unfold items_loop in *. simpl. rewrite wrap64_add_l, IH.
    f_equal. ring.
Qed.

(** [calculatePoints] adds up all the rules when [dateParts[2]] exists. *)
Lemma calculatePoints_sum (receipt : Receipt) (dayPart : string) :
  nth_error (Split_byte "-" (PurchaseDate receipt)) 2 = Some dayPart ->
  calculatePoints receipt = Some (wrap64 (exact_points receipt)).
Proof.
  intros Hday. unfold calculatePoints, exact_points. cbv zeta. rewrite Hday.
  unfold item_pair_points.
  rewrite wrap64_add_r, items_loop_sum.
  repeat first [ rewrite wrap64_add_l | rewrite <- Z.add_assoc ].
  reflexivity.
Qed.

(** ** time.Parse *)

Lemma time_Parse_15_04_range (s : string) (hour min : Z) :
  time_Parse_15_04 s = Some (hour, min) -> 0 <= hour < 24 /\ 0 <= min < 60.
Proof.
  unfold time_Parse_15_04.
  destruct (getnum (bytes s) false) as [[h v1]|]; [|discriminate].
  destruct ((0 <=? h) && (h <? 24)) eqn:Eh; simpl; [|discriminate].
  destruct v1 as [|b v2]; [discriminate|].
  destruct (b =? 58); simpl; [|discriminate].
  destruct (getnum v2 true) as [[m v3]|]; [|discriminate].
  destruct ((0 <=? m) && (m <? 60)) eqn:Em; simpl; [|discriminate].
  destruct v3; [|discriminate].
  intros H; injection H as <- <-.
  apply andb_true_iff in Eh, Em.
  destruct Eh as [Eh1 Eh2], Em as [Em1 Em2].
  apply Z.leb_le in Eh1, Em1. apply Z.ltb_lt in Eh2, Em2. lia.
Qed.

(** ** The store *)

Lemma run_unregistered_from (reqs : list Request) (id : string) (receiptStore : Store) :
  ~ In id (registered_ids reqs) -> receiptStore !! id = None ->
  fold_left step reqs receiptStore !! id = None.
Proof.
  revert receiptStore.
  induction reqs as [|req reqs IH]; intros st Hnot Hst; simpl; [exact Hst|].
  destruct req as [[receipt|] rid|gid]; simpl in Hnot |- *.
  - apply IH; [tauto|]. rewrite lookup_insert_ne; [exact Hst|].
    intros ->. tauto.
  - apply IH; assumption.
  - unfold getPoints, lookupReceipt.
    destruct (st !! gid) as [r|]; [destruct (calculatePoints r)|]; apply IH; assumption.
Qed.

(** ** strings.Split and the date *)

Lemma Split_byte_length (sep : ascii) (s : string) :
  length (Split_byte sep s) = S (count_byte sep s).
Proof.
  induction s as [|c s IH]; simpl; [reflexivity|].
  destruct (Ascii.eqb c sep); simpl; [now rewrite IH|].
  destruct (Split_byte sep s) as [|p ps]; simpl in *; [discriminate|exact IH].
Qed.

Lemma Split_byte_third (sep : ascii) (s : string) :
  (2 <= count_byte sep s)%nat -> exists part, nth_error (Split_byte sep s) 2 = Some part.
Proof.
  intros Hc. destruct (nth_error (Split_byte sep s) 2) as [part|] eqn:E; [eauto|].
  apply nth_error_None in E. rewrite Split_byte_length in E. lia.
Qed.

Lemma valid_date_dashes (s : string) : valid_date s = true -> (2 <= count_byte "-" s)%nat.
Proof.
  intros H.
  destruct s as [|y1 [|y2 [|y3 [|y4 [|h1 [|m1 [|m2 [|h2 [|d1 [|d2 [|]]]]]]]]]]];
    try discriminate.
  unfold valid_date in H. apply andb_true_iff in H as [H H2].
  apply andb_true_iff in H as [_ H1].
  apply Ascii.eqb_eq in H1, H2. subst h1 h2. simpl.
  repeat match goal with |- context [Ascii.eqb ?a ?b] => destruct (Ascii.eqb a b) end;
    simpl; lia.
Qed.

(** ** ParseFloat *)

Lemma ParseFloat_syntax_zero (price : string) :
  snd (ParseFloat price) = ErrSyntax -> fst (ParseFloat price) = F64Zero false.
Proof.
  unfold ParseFloat. destruct (special (bytes price)); [discriminate|].
  destruct (readFloat (bytes price)) as [[[[[[neg hex] mant] fd] x] [|b rest]]|];
    try reflexivity.
  cbv zeta.
  match goal with |- context [match ?f with F64Inf _ => _ | _ => _ end] => destruct f end;
    simpl; discriminate.
Qed.

(** ** TrimSpace keeps bytes of its argument *)

Lemma trim_with_suffix (w : list Z -> nat) (fuel : nat) (l : list Z) :
  exists k, trim_with w fuel l = skipn k l.
Proof.
  revert l. induction fuel as [|f IH]; intros l; simpl; [exists 0%nat; reflexivity|].
  destruct (w l) as [|k]; [exists 0%nat; reflexivity|].
  destruct (IH (skipn (S k) l)) as [k' Hk']. rewrite Hk', skipn_skipn.
  eexists; reflexivity.
Qed.

Lemma In_skipn_In (k : nat) (l : list Z) (x : Z) : In x (skipn k l) -> In x l.
Proof.
  intros H. rewrite <- (firstn_skipn k l). apply in_or_app. right. exact H.
Qed.

Lemma TrimSpace_In (s : string) (x : Z) : In x (TrimSpace s) -> In x (bytes s).
Proof.
  unfold TrimSpace, TrimRightSpace, TrimLeftSpace.
  destruct (trim_with_suffix space_width (length (bytes s)) (bytes s)) as [k1 E1].
  rewrite E1.
  destruct (trim_with_suffix space_width_rev (length (skipn k1 (bytes s)))
              (rev (skipn k1 (bytes s)))) as [k2 E2].
  rewrite E2. intros H.
  apply in_rev, In_skipn_In, in_rev, In_skipn_In in H. exact H.
Qed.

Lemma filter_all (f : Z -> bool) (l : list Z) :
  (forall x, In x l -> f x = true) -> filter f l = l.
Proof.
  induction l as [|a l IH]; intros H; simpl; [reflexivity|].
  rewrite (H a (or_introl eq_refl)), IH; [reflexivity|].
  intros x Hx. apply H. right. exact Hx.
Qed.

(** * The claims *)

(** ** C5: scenario A of the spec scores 37 *)

(** C5: for the receipt "Target", 2022-01-01, 13:01, total "1.25" and the
    single item ("Pepsi - 12-oz", "1.25"), calculatePoints returns 37. *)
Theorem scenarioA_points : calculatePoints scenarioA = Some 37.
Proof. vm_compute. reflexivity. Qed.

(** ** C2: a total of "100.00" *)

(** C2 (counterexample): on the total "100.00" the round-dollar and the
    quarter-multiple rules together give 75 points, not 100. *)
Lemma total_100_not_100 :
  round_dollar_points (with_total scenarioA "100.00")
  + quarter_points (with_total scenarioA "100.00") <> 100.
Proof. vm_compute. discriminate. Qed.

(** C2 (amended): for every receipt whose total is "100.00", the
    round-dollar rule gives 50 and the quarter-multiple rule gives 25 in the
    same call, 75 points together. *)
Theorem total_100_both_rules (receipt : Receipt) :
  round_dollar_points (with_total receipt "100.00") = 50
  /\ quarter_points (with_total receipt "100.00") = 25
  /\ round_dollar_points (with_total receipt "100.00")
     + quarter_points (with_total receipt "100.00") = 75.
Proof. split; [|split]; reflexivity. Qed.

(** ** C3: the afternoon window *)

(** C3: when the purchase time parses with layout "15:04" as hour:min, the
    afternoon rule gives 10 points exactly when 14:00 < hour:min < 16:00. *)
Theorem afternoon_window (receipt : Receipt) (hour min : Z) :
  time_Parse_15_04 (PurchaseTime receipt) = Some (hour, min) ->
  afternoon_points receipt =
    if (14 * 60 <? hour * 60 + min) && (hour * 60 + min <? 16 * 60) then 10 else 0.
Proof.
  intros Hp. pose proof (time_Parse_15_04_range _ _ _ Hp) as Hr.
  unfold afternoon_points. rewrite Hp.
  destruct (Z.eqb_spec hour 14), (Z.ltb_spec 0 min), (Z.eqb_spec hour 15),
    (Z.ltb_spec (14 * 60) (hour * 60 + min)), (Z.ltb_spec (hour * 60 + min) (16 * 60));
    simpl; try reflexivity; lia.
Qed.

Lemma afternoon_window_witness :
  time_Parse_15_04 (PurchaseTime (at_time "14:30")) = Some (14, 30)
  /\ afternoon_points (at_time "14:30") = 10.
Proof.
  split; [reflexivity|].
  exact (afternoon_window (at_time "14:30") 14 30 eq_refl).
Defined.

(** The boundaries named by the spec. *)
Example afternoon_boundaries :
  map (fun t => afternoon_points (at_time t)) ["14:00"; "14:01"; "15:59"; "16:00"]
  = [0; 10; 10; 0].
Proof. vm_compute. reflexivity. Qed.

(** ** C8: a lookup after a registration returns the receipt *)

(** C8: processReceipt on a bound receipt answers with the generated id, and
    looking that id up in the resulting store returns the same receipt. *)
Theorem register_lookup_roundtrip (receiptStore : Store) (receipt : Receipt) (id : string) :
  processReceipt (Some receipt) id receiptStore
    = (<[id := receipt]> receiptStore, ReceiptResponse id)
  /\ fst (lookupReceipt id (fst (processReceipt (Some receipt) id receiptStore)))
     = Some receipt.
Proof.
  split; [reflexivity|]. simpl. apply lookup_insert_eq.
Qed.

(** ** C9: an identifier never registered is not found *)

(** C9: after any run of requests that never stored a receipt under [id],
    looking up [id] finds nothing and getPoints answers NotFound, both
    leaving the store as it is. *)
Theorem lookup_unregistered (reqs : list Request) (id : string) :
  ~ In id (registered_ids reqs) ->
  lookupReceipt id (run reqs) = (None, run reqs)
  /\ getPoints id (run reqs) = (run reqs, NotFound).
Proof.
  intros Hnot.
  assert (Hn : run reqs !! id = None).
  { apply run_unregistered_from; [exact Hnot|]. apply lookup_empty. }
  unfold getPoints, lookupReceipt. rewrite Hn. split; reflexivity.
Qed.

Lemma lookup_unregistered_witness :
  ~ In "other" (registered_ids [PostProcess (Some scenarioA) "id-1"; GetPointsReq "other"])
  /\ getPoints "other" (run [PostProcess (Some scenarioA) "id-1"; GetPointsReq "other"])
     = (run [PostProcess (Some scenarioA) "id-1"; GetPointsReq "other"], NotFound).
Proof.
  assert (H : ~ In "other" (registered_ids
                 [PostProcess (Some scenarioA) "id-1"; GetPointsReq "other"])).
  { simpl. intros [H|H]; [discriminate|exact H]. }
  split; [exact H|].
  exact (proj2 (lookup_unregistered _ _ H)).
Defined.

(** ** C10: registration only touches the new identifier *)

(** C10: storing a receipt under [id] leaves every other key of the store
    as it was, and a lookup or getPoints never changes the store. *)
Theorem register_frame (receiptStore : Store) (receipt : Receipt) (id k : string) :
  k <> id ->
  fst (processReceipt (Some receipt) id receiptStore) !! k = receiptStore !! k
  /\ snd (lookupReceipt k receiptStore) = receiptStore
  /\ fst (getPoints k receiptStore) = receiptStore.
Proof.
  intros Hk. split; [|split].
  - simpl. apply lookup_insert_ne. congruence.
  - reflexivity.
  - unfold getPoints, lookupReceipt.
    destruct (receiptStore !! k) as [r|]; [destruct (calculatePoints r)|]; reflexivity.
Qed.

Lemma register_frame_witness :
  "b" <> "a"
  /\ fst (processReceipt (Some scenarioA) "a" {["b" := scenarioA]}) !! "b"
     = ({["b" := scenarioA]} : Store) !! "b".
Proof.
  assert (H : "b" <> "a") by discriminate.
  split; [exact H|].
  exact (proj1 (register_frame {["b" := scenarioA]} scenarioA "a" "b" H)).
Defined.

(** ** C1: malformed numeric fields *)

(** C1 (counterexample): the total "abc.00" is not a decimal number, yet
    the round-dollar rule, which reads the total, gives it 50 points. *)
Lemma malformed_total_round_dollar :
  decimal_syntax "abc.00" = false
  /\ round_dollar_points (with_total scenarioA "abc.00") = 50.
Proof. split; vm_compute; reflexivity. Qed.

(** C1 (amended): a price on which ParseFloat reports a syntax error adds
    0 points; the round-dollar rule only tests whether the total ends in
    ".00", whether or not it parses; and when the purchase date has at least
    two '-' (so [dateParts[2]] exists) calculatePoints completes with the
    int sum of all the rules' contributions. *)
Theorem malformed_fields_local :
  (forall price : string, snd (ParseFloat price) = ErrSyntax -> price_points price = 0)
  /\ (forall (receipt : Receipt) (total : string),
        HasSuffix total ".00" = true -> round_dollar_points (with_total receipt total) = 50)
  /\ (forall receipt : Receipt,
        (2 <= count_byte "-" (PurchaseDate receipt))%nat ->
        calculatePoints receipt = Some (wrap64 (exact_points receipt))).
Proof.
  split; [|split].
  - intros price H. unfold price_points.
    rewrite (ParseFloat_syntax_zero price H). reflexivity.
  - intros receipt total H. unfold round_dollar_points. simpl. rewrite H. reflexivity.
  - intros receipt H. destruct (Split_byte_third _ _ H) as [dayPart Hd].
    exact (calculatePoints_sum receipt dayPart Hd).
Qed.

Lemma malformed_fields_local_witness :
  snd (ParseFloat "12,50") = ErrSyntax /\ price_points "12,50" = 0.
Proof.
  assert (H : snd (ParseFloat "12,50") = ErrSyntax) by (vm_compute; reflexivity).
  split; [exact H|].
  exact (proj1 malformed_fields_local "12,50" H).
Defined.

(** ** C4: the description-length bonus *)

(** C4 (counterexample): "éa" has two characters, but its UTF-8 encoding
    has three bytes, and the item earns the price bonus. *)
Lemma description_bytes_not_chars :
  char_length (TrimSpace "éa") = 2%nat
  /\ description_points (mkItem "éa" "5.00") = 1.
Proof. split; vm_compute; reflexivity. Qed.

(** C4 (amended): an item adds int(ceil(price * 0.2)) exactly when the
    length in bytes of its trimmed description is a multiple of 3 (0
    included); for an ASCII description that length is the number of
    characters; and the loop adds the items' contributions to the points. *)
Theorem description_bonus_bytes (item : Item) :
  description_points item =
    (if Nat.eqb (length (TrimSpace (ShortDescription item)) mod 3) 0
     then price_points (Price item) else 0)
  /\ (forallb (fun b => b <? 128) (bytes (ShortDescription item)) = true ->
      char_length (TrimSpace (ShortDescription item))
      = length (TrimSpace (ShortDescription item)))
  /\ (forall (items : list Item) (x : Z),
        items_loop items (wrap64 x) = wrap64 (x + description_sum items)).
Proof.
  split; [|split].
  - reflexivity.
  - intros Hascii. unfold char_length. f_equal. apply filter_all.
    intros x Hx. apply TrimSpace_In in Hx.
    rewrite forallb_forall in Hascii. specialize (Hascii x Hx).
    apply Z.ltb_lt in Hascii.
    assert (Hn : in_range 128 191 x = false).
    { unfold in_range. apply andb_false_iff. left. apply Z.leb_gt. lia. }
    rewrite Hn. reflexivity.
  - exact items_loop_sum.
Qed.

Lemma description_bonus_bytes_witness :
  forallb (fun b => b <? 128) (bytes (ShortDescription (mkItem " Pepsi " "1.25"))) = true
  /\ char_length (TrimSpace " Pepsi ") = length (TrimSpace " Pepsi ").
Proof.
  assert (H : forallb (fun b => b <? 128)
                (bytes (ShortDescription (mkItem " Pepsi " "1.25"))) = true)
    by (vm_compute; reflexivity).
  split; [exact H|].
  exact (proj1 (proj2 (description_bonus_bytes (mkItem " Pepsi " "1.25"))) H).
Defined.

(** The trimmed lengths named by the spec, on ASCII descriptions. *)
Example description_length_boundaries :
  map (fun d => description_points (mkItem d "10.00"))
    ["   "; "abc"; " abcdef "; "a"; "ab"; "abcd"; "abcde"]
  = [2; 2; 2; 0; 0; 0; 0].
Proof. vm_compute. reflexivity. Qed.

(** ** C6: calculatePoints does not panic on a valid receipt *)

(** C6: on a receipt with its required fields present and its date, time
    and amounts well formed, calculatePoints returns an int (the index
    [dateParts[2]] is in range). *)
Theorem calculatePoints_total (receipt : Receipt) :
  valid_receipt receipt = true -> exists points, calculatePoints receipt = Some points.
Proof.
  intros H. unfold valid_receipt in H.
  repeat (apply andb_true_iff in H as [H ?]).
  destruct (Split_byte_third _ _ (valid_date_dashes _ ltac:(eassumption))) as [dayPart Hd].
  eexists. exact (calculatePoints_sum receipt dayPart Hd).
Qed.

Lemma calculatePoints_total_witness :
  valid_receipt scenarioA = true /\ exists points, calculatePoints scenarioA = Some points.
Proof.
  assert (H : valid_receipt scenarioA = true) by (vm_compute; reflexivity).
  split; [exact H|].
  exact (calculatePoints_total scenarioA H).
Defined.

(** ** float64 signs *)

Lemma round_nonneg (n d : Z) : 0 < d -> nonneg_float (round_to_float64 false n d).
Proof.
  intros Hd. unfold round_to_float64.
  destruct (n <=? 0) eqn:Hn; [exact I|]. apply Z.leb_gt in Hn. cbv zeta.
  match goal with |- context [Z.max ?a ?b] => generalize (Z.max a b); intros e end.
  destruct (0 <=? e) eqn:He.
  - apply Z.leb_le in He.
    assert (Hq : 0 <= n / (d * 2 ^ e)).
    { apply Z.div_pos; [lia|]. apply Z.mul_pos_pos; [lia|]. apply Z.pow_pos_nonneg; lia. }
    repeat match goal with |- context [if ?b then _ else _] => destruct b end;
      simpl; try exact I; lia.
  - apply Z.leb_gt in He.
    assert (Hq : 0 <= n * 2 ^ (- e) / d).
    { apply Z.div_pos; [|lia]. apply Z.mul_nonneg_nonneg; [lia|].
      apply Z.pow_nonneg; lia. }
    repeat match goal with |- context [if ?b then _ else _] => destruct b end;
      simpl; try exact I; lia.
Qed.

Lemma prefix_first_mismatch (c : Z) (rest ps : list Z) (p : Z) :
  isDigit c = true -> (p = 105 \/ p = 110) -> prefix_ignore_case (c :: rest) (p :: ps) = false.
Proof.
  intros Hc Hp. unfold isDigit, in_range in Hc. apply andb_true_iff in Hc as [H1 H2].
  apply Z.leb_le in H1. apply Z.leb_le in H2. cbn [prefix_ignore_case].
  assert (Hr : in_range 65 90 c = false).
  { unfold in_range. apply andb_false_iff. left. apply Z.leb_gt. lia. }
  rewrite Hr. assert (Hne : (c =? p) = false) by (apply Z.eqb_neq; lia).
  rewrite Hne. reflexivity.
Qed.

Lemma special_digit (c : Z) (rest : list Z) : isDigit c = true -> special (c :: rest) = None.
Proof.
  intros Hc. pose proof Hc as Hc'. unfold isDigit, in_range in Hc'.
  apply andb_true_iff in Hc' as [H1 H2]. apply Z.leb_le in H1. apply Z.leb_le in H2.
  unfold special.
  assert (E45 : (c =? 45) = false) by (apply Z.eqb_neq; lia).
  assert (E43 : (c =? 43) = false) by (apply Z.eqb_neq; lia).
  rewrite E45, E43.
  change lit_inf with [105; 110; 102]. change lit_infinity with [105; 110; 102; 105; 110; 105; 116; 121].
  change lit_nan with [110; 97; 110].
  rewrite !prefix_first_mismatch by (auto || lia).
  rewrite !andb_false_r. reflexivity.
Qed.

Lemma readFloat_digit_sign (c : Z) (rest : list Z) neg hex mant fd x rest' :
  isDigit c = true -> readFloat (c :: rest) = Some (neg, hex, mant, fd, x, rest') -> neg = false.
Proof.
  intros Hc. pose proof Hc as Hc'. unfold isDigit, in_range in Hc'.
  apply andb_true_iff in Hc' as [H1 H2]. apply Z.leb_le in H1. apply Z.leb_le in H2.
  assert (E45 : (c =? 45) = false) by (apply Z.eqb_neq; lia).
  assert (E43 : (c =? 43) = false) by (apply Z.eqb_neq; lia).
  unfold readFloat. rewrite E45, E43. cbv beta iota zeta.
  repeat match goal with
         | |- context [match ?t with _ => _ end] => destruct t
         end; intros H; try discriminate; injection H; intros; subst; reflexivity.
Qed.

Lemma ParseFloat_digit_nonneg (s : string) (c : Z) (rest : list Z) :
  bytes s = c :: rest -> isDigit c = true -> nonneg_float (fst (ParseFloat s)).
Proof.
  intros Hs Hc. unfold ParseFloat. rewrite Hs, (special_digit c rest Hc).
  destruct (readFloat (c :: rest)) as [[[[[[neg hex] mant] fd] x] [|b rest']]|] eqn:Hr;
    try exact I.
  rewrite (readFloat_digit_sign c rest neg hex mant fd x [] Hc Hr). cbv zeta.
  assert (Hf : nonneg_float
    (if hex then
       if 0 <=? x - 4 * fd then round_to_float64 false (mant * 2 ^ (x - 4 * fd)) 1
       else round_to_float64 false mant (2 ^ (- (x - 4 * fd)))
     else
       if 0 <=? x - fd then round_to_float64 false (mant * 10 ^ (x - fd)) 1
       else round_to_float64 false mant (10 ^ (- (x - fd))))).
  { destruct hex; [destruct (0 <=? x - 4 * fd) eqn:Hk|destruct (0 <=? x - fd) eqn:Hk];
      apply round_nonneg; try lia; apply Z.leb_gt in Hk; apply Z.pow_pos_nonneg; lia. }
  revert Hf.
  match goal with |- _ -> nonneg_float (fst (match ?f with _ => _ end)) => destruct f end;
    simpl; tauto.
Qed.

Lemma f64_0_2_value : f64_0_2 = F64Finite false 7205759403792794 (-55).
Proof. vm_compute. reflexivity. Qed.

Lemma mul_0_2_nonneg (x : float64) : nonneg_float x -> nonneg_float (f64_mul x f64_0_2).
Proof.
  rewrite f64_0_2_value. intros Hx.
  destruct x as [s|[|] m e|[|]|]; simpl in Hx |- *; try contradiction; try exact I.
  destruct (0 <=? e + -55) eqn:He; apply round_nonneg; [lia|].
  apply Z.leb_gt in He. apply Z.pow_pos_nonneg; lia.
Qed.

Lemma Ceil_int_nonneg (x : float64) (c : Z) :
  nonneg_float x -> Ceil_int x = Some c -> 0 <= c.
Proof.
  intros Hx Hc. destruct x as [s|[|] m e|[|]|]; simpl in Hx, Hc; try contradiction;
    try discriminate.
  - injection Hc as <-. lia.
  - destruct (0 <=? e) eqn:He; injection Hc as <-.
    + apply Z.leb_le in He. apply Z.mul_nonneg_nonneg; [lia|]. apply Z.pow_nonneg; lia.
    + apply Z.leb_gt in He. apply Z.div_pos; [|apply Z.pow_pos_nonneg; lia].
      assert (0 < 2 ^ (- e)) by (apply Z.pow_pos_nonneg; lia). lia.
Qed.

Lemma valid_money_first_digit (s : string) :
  valid_money s = true -> exists c rest, bytes s = c :: rest /\ isDigit c = true.
Proof.
  unfold valid_money. intros H.
  apply andb_true_iff in H as [H _]. apply andb_true_iff in H as [H _].
  apply andb_true_iff in H as [Hlen Hdig].
  destruct (bytes s) as [|c rest] eqn:Hs; [discriminate|].
  apply Nat.leb_le in Hlen. simpl in Hlen.
  simpl in Hdig.
  replace (length rest - 2)%nat with (S (length rest - 3)) in Hdig by lia.
  simpl in Hdig. apply andb_true_iff in Hdig as [Hc _]. eauto.
Qed.

Lemma price_points_nonneg (price : string) (c : Z) :
  valid_money price = true ->
  Ceil_int (f64_mul (fst (ParseFloat price)) f64_0_2) = Some c -> c <= int_max ->
  0 <= price_points price.
Proof.
  intros Hv Hc Hmax.
  destruct (valid_money_first_digit price Hv) as [d [rest [Hs Hd]]].
  pose proof (Ceil_int_nonneg _ _
    (mul_0_2_nonneg _ (ParseFloat_digit_nonneg price d rest Hs Hd)) Hc) as Hpos.
  unfold price_points. rewrite Hc. unfold int_of_integral.
  assert (Hr : in_range int_min int_max c = true).
  { unfold in_range, int_min. apply andb_true_iff. split; apply Z.leb_le; lia. }
  rewrite Hr. exact Hpos.
Qed.

Lemma description_sum_nonneg (items : list Item) :
  forallb valid_item items = true ->
  (forall item, In item items ->
     exists c, Ceil_int (f64_mul (fst (ParseFloat (Price item))) f64_0_2) = Some c
               /\ c <= int_max) ->
  0 <= description_sum items.
Proof.
  induction items as [|item items IH]; intros Hv Hc; simpl; [lia|].
  apply andb_true_iff in Hv as [Hi Hv].
  assert (0 <= description_points item).
  { unfold description_points.
    destruct (Nat.eqb _ 0); [|lia].
    destruct (Hc item (or_introl eq_refl)) as [c [Hceil Hmax]].
    apply andb_true_iff in Hi as [_ Hm].
    exact (price_points_nonneg _ c Hm Hceil Hmax). }
  assert (0 <= description_sum items).
  { apply IH; [exact Hv|]. intros it Hit. apply Hc. right. exact Hit. }
  lia.
Qed.

(** ** C7: the sign of the score *)

(** C7 (counterexample): a valid receipt with two items priced
    "25000000000000000000.00" earns 5 * 10^18 points per item, and the int
    sum wraps around to a negative score. *)
Lemma overflow_receipt_negative :
  valid_receipt overflowReceipt = true
  /\ calculatePoints overflowReceipt = Some (-8446744073709551555)
  /\ -8446744073709551555 < 0.
Proof. split; [|split]; [vm_compute; reflexivity|vm_compute; reflexivity|lia]. Qed.

(** C7 (amended): on a valid receipt where no int overflows (every item's
    ceil(price * 0.2) is finite and at most 2^63 - 1, and the sum of all the
    rules' contributions is at most 2^63 - 1), the score is non-negative. *)
Theorem score_nonneg_without_overflow (receipt : Receipt) :
  valid_receipt receipt = true ->
  (forall item, In item (Items receipt) ->
     exists c, Ceil_int (f64_mul (fst (ParseFloat (Price item))) f64_0_2) = Some c
               /\ c <= int_max) ->
  exact_points receipt <= int_max ->
  exists points, calculatePoints receipt = Some points /\ 0 <= points.
Proof.
  intros Hv Hc Hmax. pose proof Hv as Hv'. unfold valid_receipt in Hv'.
  apply andb_true_iff in Hv' as [Hv' Hitems].
  repeat (apply andb_true_iff in Hv' as [Hv' ?]).
  destruct (Split_byte_third _ _ (valid_date_dashes _ ltac:(eassumption))) as [dayPart Hd].
  assert (Hnn : 0 <= exact_points receipt).
  { unfold exact_points. rewrite Hd.
    assert (0 <= retailer_points receipt) by (unfold retailer_points, FindAllAlnum_count; lia).
    assert (0 <= round_dollar_points receipt)
      by (unfold round_dollar_points; destruct (HasSuffix _ _); lia).
    assert (0 <= quarter_points receipt).
    { unfold quarter_points. destruct (Atoi _) as [t e]. destruct (Z.rem t 25 =? 0); lia. }
    assert (0 <= Z.of_nat (length (Items receipt)) / 2 * 5).
    { apply Z.mul_nonneg_nonneg; [apply Z.div_pos|]; lia. }
    assert (0 <= description_sum (Items receipt)) by (apply description_sum_nonneg; assumption).
    assert (0 <= odd_day_points dayPart).
    { unfold odd_day_points. destruct (Atoi _) as [day [| |]]; [destruct (Z.rem day 2 =? 1)|..]; lia. }
    assert (0 <= afternoon_points receipt).
    { unfold afternoon_points. destruct (time_Parse_15_04 _) as [[h m]|]; [|lia].
      destruct (_ || _); lia. }
    lia. }
  exists (exact_points receipt). split; [|exact Hnn].
  rewrite (calculatePoints_sum receipt dayPart Hd). f_equal.
  apply wrap64_id. unfold int_min, int_max in *. lia.
Qed.

Lemma score_nonneg_without_overflow_witness :
  valid_receipt scenarioA = true
  /\ exists points, calculatePoints scenarioA = Some points /\ 0 <= points.
Proof.
  assert (Hv : valid_receipt scenarioA = true) by (vm_compute; reflexivity).
  split; [exact Hv|].
  apply (score_nonneg_without_overflow scenarioA Hv).
  - intros item Hin. simpl in Hin. destruct Hin as [<-|[]].
    exists 1. split; [vm_compute; reflexivity|unfold int_max; lia].
  - vm_compute. discriminate.
Defined.

(** * Further properties of the code *)

(** ** strconv.Atoi on digit strings *)

Lemma isDigit_bounds (b : Z) : isDigit b = true -> 48 <= b <= 57.
Proof.
  unfold isDigit, in_range. intros H. apply andb_true_iff in H as [H1 H2].
  apply Z.leb_le in H1. apply Z.leb_le in H2. lia.
Qed.

Lemma digits_fold_ge (l : list Z) (x : Z) :
  forallb isDigit l = true -> 0 <= x ->
  x <= fold_left (fun n b => n * 10 + (b - 48)) l x.
Proof.
  revert x. induction l as [|b l IH]; intros x Hl Hx; simpl; [lia|].
  apply andb_true_iff in Hl as [Hb Hl]. apply isDigit_bounds in Hb.
  specialize (IH (x * 10 + (b - 48)) Hl ltac:(lia)). lia.
Qed.

Lemma digits_fold_lt (l : list Z) (x : Z) :
  forallb isDigit l = true -> 0 <= x ->
  fold_left (fun n b => n * 10 + (b - 48)) l x < (x + 1) * 10 ^ Z.of_nat (length l).
Proof.
  revert x. induction l as [|b l IH]; intros x Hl Hx; simpl; [lia|].
  apply andb_true_iff in Hl as [Hb Hl]. apply isDigit_bounds in Hb.
  specialize (IH (x * 10 + (b - 48)) Hl ltac:(lia)).
  rewrite Nat2Z.inj_succ, Z.pow_succ_r by lia. nia.
Qed.

Lemma atoi_fast_loop_digits (l : list Z) (n : Z) :
  forallb isDigit l = true ->
  atoi_fast_loop l n = Some (fold_left (fun n b => n * 10 + (b - 48)) l n).
Proof.
  revert n. induction l as [|b l IH]; intros n Hl; simpl; [reflexivity|].
  apply andb_true_iff in Hl as [Hb Hl]. rewrite Hb. apply IH, Hl.
Qed.

Lemma ParseUint10_loop_digits (l : list Z) (n : Z) :
  forallb isDigit l = true -> 0 <= n <= maxUint64 ->
  ParseUint10_loop l n =
    let v := fold_left (fun n b => n * 10 + (b - 48)) l n in
    if v <=? maxUint64 then (v, NoErr) else (maxUint64, ErrRange).
Proof.
  revert n. induction l as [|b l IH]; intros n Hl Hn; cbv zeta; simpl.
  - destruct (Z.leb_spec n maxUint64); [reflexivity|lia].
  - apply andb_true_iff in Hl as [Hb Hl]. rewrite Hb. simpl.
    pose proof (isDigit_bounds b Hb) as Hbb.
    pose proof (digits_fold_ge l (n * 10 + (b - 48)) Hl ltac:(lia)) as Hge.
    unfold maxUint64 in *.
    destruct (Z.leb_spec ((2 ^ 64 - 1) / 10 + 1) n).
    + destruct (Z.leb_spec (fold_left (fun n b => n * 10 + (b - 48)) l (n * 10 + (b - 48)))
                 (2 ^ 64 - 1)); [|reflexivity].
      exfalso. assert (((2 ^ 64 - 1) / 10 + 1) * 10 > 2 ^ 64 - 1) by (vm_compute; reflexivity).
      nia.
    + destruct (Z.ltb_spec (2 ^ 64 - 1) (n * 10 + (b - 48))).
      * destruct (Z.leb_spec (fold_left (fun n b => n * 10 + (b - 48)) l (n * 10 + (b - 48)))
                   (2 ^ 64 - 1)); [lia|reflexivity].
      * apply IH; [exact Hl|lia].
Qed.

Lemma Atoi_bytes_digits (l : list Z) :
  l <> nil -> forallb isDigit l = true ->
  Atoi_bytes l = (Z.min (digits_value l) int_max,
                  if digits_value l <=? int_max then NoErr else ErrRange).
Proof.
  intros Hne Hl. unfold digits_value.
  destruct l as [|b l']; [congruence|].
  pose proof Hl as Hl'. simpl in Hl'. apply andb_true_iff in Hl' as [Hb _].
  pose proof (isDigit_bounds b Hb) as Hbb.
  assert (E45 : (b =? 45) = false) by (apply Z.eqb_neq; lia).
  assert (E43 : (b =? 43) = false) by (apply Z.eqb_neq; lia).
  pose proof (digits_fold_ge (b :: l') 0 Hl ltac:(lia)) as Hge.
  set (v := fold_left (fun n b => n * 10 + (b - 48)) (b :: l') 0) in *.
  unfold Atoi_bytes.
  destruct ((0 <? length (b :: l'))%nat && (length (b :: l') <? 19)%nat) eqn:Hfast.
  - apply andb_true_iff in Hfast as [_ Hlen]. apply Nat.ltb_lt in Hlen.
    pose proof (digits_fold_lt (b :: l') 0 Hl ltac:(lia)) as Hlt.
    assert (Hpow : 10 ^ Z.of_nat (length (b :: l')) <= 10 ^ 18)
      by (apply Z.pow_le_mono_r; lia).
    assert (Hsmall : v <= int_max).
    { unfold int_max. assert (10 ^ 18 < 2 ^ 63) by (vm_compute; reflexivity). lia. }
    unfold Atoi_fast. rewrite E45, E43. simpl orb. cbn [andb].
    rewrite atoi_fast_loop_digits by exact Hl. fold v.
    rewrite Z.min_l by lia. destruct (Z.leb_spec v int_max); [reflexivity|lia].
  - unfold ParseInt10. rewrite E43, E45. unfold ParseUint10.
    rewrite ParseUint10_loop_digits by (unfold maxUint64; lia || exact Hl).
    cbv zeta. fold v. unfold int_max, maxUint64.
    destruct (Z.leb_spec v (2 ^ 64 - 1)); simpl.
    + destruct (Z.leb_spec (2 ^ 63) v); simpl.
      * rewrite Z.min_r by lia. destruct (Z.leb_spec v (2 ^ 63 - 1)); [lia|reflexivity].
      * rewrite Z.min_l by lia. destruct (Z.leb_spec v (2 ^ 63 - 1)); [reflexivity|lia].
    + replace (2 ^ 63 <=? 2 ^ 64 - 1) with true by reflexivity. simpl.
      rewrite Z.min_r by lia. destruct (Z.leb_spec v (2 ^ 63 - 1)); [lia|reflexivity].
Qed.

(** ** The store over a run *)

Lemma getPoints_store (id : string) (receiptStore : Store) :
  fst (getPoints id receiptStore) = receiptStore.
Proof.
  unfold getPoints, lookupReceipt.
  destruct (receiptStore !! id) as [r|]; [destruct (calculatePoints r)|]; reflexivity.
Qed.

Lemma run_lookup_from (reqs : list Request) (id : string) (receiptStore : Store) :
  fold_left step reqs receiptStore !! id =
  fold_left (fun acc req =>
               match req with
               | PostProcess (Some receipt) id' => if String.eqb id' id then Some receipt else acc
               | _ => acc
               end) reqs (receiptStore !! id).
Proof.
  revert receiptStore.
  induction reqs as [|req reqs IH]; intros st; simpl; [reflexivity|].
  rewrite IH. f_equal.
  destruct req as [[receipt|] rid|gid]; simpl.
  - destruct (String.eqb_spec rid id) as [->|Hne].
    + apply lookup_insert_eq.
    + apply lookup_insert_ne. exact Hne.
  - reflexivity.
  - rewrite getPoints_store. reflexivity.
Qed.

(** The store after any run maps each identifier to the receipt of the last
    successful processReceipt that used it, and has no entry for an
    identifier no successful processReceipt used: rejected submissions and
    getPoints never change it. *)
Theorem run_lookup_last (reqs : list Request) (id : string) :
  run reqs !! id = last_registered id reqs.
Proof.
  unfold run, last_registered. rewrite run_lookup_from. reflexivity.
Qed.

Lemma calculatePoints_None_iff (receipt : Receipt) :
  calculatePoints receipt = None <-> (count_byte "-" (PurchaseDate receipt) < 2)%nat.
Proof.
  pose proof (Split_byte_length "-" (PurchaseDate receipt)) as Hlen.
  unfold calculatePoints. cbv zeta.
  destruct (nth_error (Split_byte "-" (PurchaseDate receipt)) 2) as [d|] eqn:E.
  - split; [discriminate|]. intros Hc.
    assert (Hlt : (2 < length (Split_byte "-" (PurchaseDate receipt)))%nat)
      by (apply nth_error_Some; congruence). lia.
  - split; [intros _|reflexivity]. apply nth_error_None in E. lia.
Qed.

(** ** The order of the items *)

Lemma description_sum_perm (items items' : list Item) :
  Permutation items items' -> description_sum items = description_sum items'.
Proof.
  unfold description_sum. induction 1; simpl; lia.
Qed.

(** The score does not depend on the order of the items: reordering them
    gives the same result, including the same panic. *)
Theorem calculatePoints_items_perm (receipt : Receipt) (items : list Item) :
  Permutation items (Items receipt) ->
  calculatePoints (with_items receipt items) = calculatePoints receipt.
Proof.
  intros Hp. destruct receipt as [ret date time items0 total]. simpl in Hp.
  unfold calculatePoints, item_pair_points, with_items. cbv zeta. simpl.
  rewrite !items_loop_sum, (Permutation_length Hp), (description_sum_perm _ _ Hp).
  reflexivity.
Qed.

Lemma calculatePoints_items_perm_witness :
  Permutation [mkItem "Gatorade" "2.25"; mkItem "Emils Cheese Pizza" "12.25"]
    (Items (mkReceipt "Target" "2022-01-01" "13:01"
              [mkItem "Emils Cheese Pizza" "12.25"; mkItem "Gatorade" "2.25"] "14.50"))
  /\ calculatePoints (with_items (mkReceipt "Target" "2022-01-01" "13:01"
              [mkItem "Emils Cheese Pizza" "12.25"; mkItem "Gatorade" "2.25"] "14.50")
              [mkItem "Gatorade" "2.25"; mkItem "Emils Cheese Pizza" "12.25"])
     = calculatePoints (mkReceipt "Target" "2022-01-01" "13:01"
              [mkItem "Emils Cheese Pizza" "12.25"; mkItem "Gatorade" "2.25"] "14.50").
Proof.
  assert (Hp : Permutation [mkItem "Gatorade" "2.25"; mkItem "Emils Cheese Pizza" "12.25"]
    (Items (mkReceipt "Target" "2022-01-01" "13:01"
              [mkItem "Emils Cheese Pizza" "12.25"; mkItem "Gatorade" "2.25"] "14.50")))
    by (simpl; apply perm_swap).
  split; [exact Hp|]. apply (calculatePoints_items_perm _ _ Hp).
Defined.

(** ** The total: strings.HasSuffix and strconv.Atoi on a well-formed amount *)

Lemma code_eqb (c d : ascii) : Ascii.eqb c d = (code c =? code d).
Proof.
  destruct (Ascii.eqb_spec c d) as [->|Hne]; [symmetry; apply Z.eqb_refl|].
  symmetry. apply Z.eqb_neq. intros H. apply Hne. unfold code in H.
  apply N2Z.inj in H.
  rewrite <- (ascii_N_embedding c), <- (ascii_N_embedding d), H. reflexivity.
Qed.

Lemma bytes_String (c : ascii) (s : string) : bytes (String c s) = code c :: bytes s.
Proof. reflexivity. Qed.

Lemma bytes_app (s t : string) : bytes (s ++ t) = bytes s ++ bytes t.
Proof.
  induction s as [|c s IH]; [reflexivity|].
  change (String c s ++ t)%string with (String c (s ++ t)).
  rewrite !bytes_String, IH. reflexivity.
Qed.

Lemma bytes_inj (s t : string) : bytes s = bytes t -> s = t.
Proof.
  revert t. induction s as [|c s IH]; intros [|d t] H; try discriminate; [reflexivity|].
  rewrite !bytes_String in H. injection H as Hc Ht.
  assert (c = d) by (apply Ascii.eqb_eq; rewrite code_eqb; apply Z.eqb_eq; exact Hc).
  subst. f_equal. apply IH, Ht.
Qed.

Lemma bytes_length (s : string) : String.length s = length (bytes s).
Proof. induction s as [|c s IH]; simpl; [reflexivity|]. rewrite IH. reflexivity. Qed.

Lemma bytes_substring (n k : nat) (s : string) :
  bytes (substring n k s) = firstn k (skipn n (bytes s)).
Proof.
  revert n k. induction s as [|c s IH]; intros n k.
  - destruct n, k; reflexivity.
  - destruct n as [|n].
    + destruct k as [|k]; [reflexivity|]. simpl substring. rewrite !bytes_String, IH.
      reflexivity.
    + simpl substring. rewrite IH. reflexivity.
Qed.

Lemma bytes_ReplaceAll_dot (s : string) :
  bytes (ReplaceAll_byte_empty "." s) = filter (fun b => negb (b =? 46)) (bytes s).
Proof.
  induction s as [|c s IH]; [reflexivity|].
  simpl ReplaceAll_byte_empty. rewrite bytes_String. simpl filter.
  rewrite code_eqb. change (code ".") with 46.
  destruct (code c =? 46); simpl; [exact IH|]. rewrite bytes_String, IH. reflexivity.
Qed.

Lemma valid_money_split (s : string) :
  valid_money s = true ->
  exists digits c1 c2, bytes s = digits ++ [46; c1; c2] /\ digits <> nil
    /\ forallb isDigit digits = true /\ isDigit c1 = true /\ isDigit c2 = true.
Proof.
  unfold valid_money. intros H.
  apply andb_true_iff in H as [H Hc]. apply andb_true_iff in H as [H Hdot].
  apply andb_true_iff in H as [Hlen Hdig]. apply Nat.leb_le in Hlen.
  remember (bytes s) as l eqn:Hl. clear Hl.
  assert (Hsk : length (skipn (length l - 3) l) = 3%nat) by (rewrite length_skipn; lia).
  destruct (skipn (length l - 3) l) as [|x [|y [|z [|w r]]]] eqn:Hs; try discriminate.
  assert (Hsplit : l = firstn (length l - 3) l ++ [x; y; z])
    by (rewrite <- Hs; symmetry; apply firstn_skipn).
  assert (HlenD : length (firstn (length l - 3) l) = (length l - 3)%nat)
    by (apply firstn_length_le; lia).
  set (D := firstn (length l - 3) l) in *. clearbody D. clear Hs Hsk. subst l.
  rewrite length_app in *. simpl length in *.
  replace (length D + 3 - 3)%nat with (length D) in * by lia.
  replace (length D + 3 - 2)%nat with (S (length D)) in * by lia.
  rewrite app_nth2, Nat.sub_diag in Hdot by lia. simpl in Hdot.
  apply Z.eqb_eq in Hdot. subst x.
  rewrite List.skipn_app, List.skipn_all2 in Hc by lia.
  replace (S (length D) - length D)%nat with 1%nat in Hc by lia.
  simpl in Hc. rewrite !andb_true_r in Hc. apply andb_true_iff in Hc as [Hy Hz].
  exists D, y, z. repeat split; try assumption.
  intros HD. rewrite HD in Hlen. simpl in Hlen. lia.
Qed.

Lemma digits_value_cents (digits : list Z) (c1 c2 : Z) :
  digits_value (digits ++ [c1; c2]) = digits_value digits * 100 + ((c1 - 48) * 10 + (c2 - 48)).
Proof. unfold digits_value. rewrite fold_left_app. simpl. ring. Qed.

Lemma filter_dot_digits (digits : list Z) :
  forallb isDigit digits = true -> filter (fun b => negb (b =? 46)) digits = digits.
Proof.
  intros H. apply filter_all. intros x Hx.
  rewrite forallb_forall in H. pose proof (isDigit_bounds x (H x Hx)).
  apply negb_true_iff, Z.eqb_neq. lia.
Qed.

Lemma HasSuffix_dot00 (s : string) (D : list Z) (c1 c2 : Z) :
  bytes s = D ++ [46; c1; c2] -> HasSuffix s ".00" = (c1 =? 48) && (c2 =? 48).
Proof.
  intros Hb. unfold HasSuffix. cbv zeta.
  rewrite (bytes_length s), Hb, length_app.
  change (String.length ".00") with 3%nat. change (length [46; c1; c2]) with 3%nat.
  replace (length D + 3 - 3)%nat with (length D) by lia.
  rewrite (proj2 (Nat.leb_le 3 (length D + 3))) by lia. rewrite andb_true_l.
  assert (Hsub : bytes (substring (length D) 3 s) = [46; c1; c2]).
  { rewrite bytes_substring, Hb, List.skipn_app, List.skipn_all, Nat.sub_diag. reflexivity. }
  destruct (String.eqb_spec (substring (length D) 3 s) ".00") as [Heq|Hneq].
  - rewrite Heq in Hsub. injection Hsub as <- <-. reflexivity.
  - destruct (Z.eqb_spec c1 48) as [->|]; destruct (Z.eqb_spec c2 48) as [->|];
      try reflexivity.
    exfalso. apply Hneq, bytes_inj. rewrite Hsub. reflexivity.
Qed.

(** For a well-formed total (digits, a dot, two digits), read as a number of
    cents: the round-dollar rule adds 50 exactly when the cents part is 00,
    and the quarter rule adds 25 exactly when the amount in cents is a
    multiple of 25 and at most 2^63 - 1; a larger amount makes Atoi return
    2^63 - 1 with a range error, which the code discards, and 2^63 - 1 is
    not a multiple of 25. *)
Theorem total_rules_valid (receipt : Receipt) :
  valid_money (Total receipt) = true ->
  let cents := digits_value (filter (fun b => negb (b =? 46)) (bytes (Total receipt))) in
  round_dollar_points receipt = (if cents mod 100 =? 0 then 50 else 0)
  /\ quarter_points receipt = (if (cents <=? int_max) && (cents mod 25 =? 0) then 25 else 0).
Proof.
  intros Hv. destruct (valid_money_split _ Hv) as [D [c1 [c2 [Hb [Hne [HD [H1 H2]]]]]]].
  cbv zeta. rewrite Hb, filter_app, filter_dot_digits by exact HD.
  pose proof (isDigit_bounds _ H1) as B1. pose proof (isDigit_bounds _ H2) as B2.
  assert (E1 : (c1 =? 46) = false) by (apply Z.eqb_neq; lia).
  assert (E2 : (c2 =? 46) = false) by (apply Z.eqb_neq; lia).
  simpl filter. rewrite E1, E2. simpl negb. cbv iota.
  assert (Hdig : forallb isDigit (D ++ [c1; c2]) = true).
  { rewrite forallb_app, HD. simpl. rewrite H1, H2. reflexivity. }
  assert (Hne2 : D ++ [c1; c2] <> nil) by (destruct D; discriminate).
  pose proof (digits_fold_ge D 0 HD ltac:(lia)) as HD0. fold (digits_value D) in HD0.
  split.
  - unfold round_dollar_points. rewrite (HasSuffix_dot00 _ _ _ _ Hb).
    rewrite digits_value_cents.
    replace ((digits_value D * 100 + ((c1 - 48) * 10 + (c2 - 48))) mod 100)
      with ((c1 - 48) * 10 + (c2 - 48))
      by (rewrite (Z.add_comm (digits_value D * 100)), Z.mod_add, Z.mod_small by lia;
          reflexivity).
    destruct (Z.eqb_spec c1 48), (Z.eqb_spec c2 48);
      destruct (Z.eqb_spec ((c1 - 48) * 10 + (c2 - 48)) 0); simpl; try reflexivity; lia.
  - unfold quarter_points, Atoi.
    rewrite bytes_ReplaceAll_dot, Hb, filter_app, filter_dot_digits by exact HD.
    simpl filter. rewrite E1, E2. simpl negb. cbv iota.
    rewrite Atoi_bytes_digits by assumption.
    rewrite digits_value_cents in *.
    set (v := digits_value D * 100 + ((c1 - 48) * 10 + (c2 - 48))).
    assert (Hv0 : 0 <= v) by (unfold v; lia).
    destruct (Z.leb_spec v int_max) as [Hle|Hgt]; simpl andb.
    + rewrite Z.min_l by lia. rewrite Z.rem_mod_nonneg by lia. reflexivity.
    + rewrite Z.min_r by lia. reflexivity.
Qed.


Lemma total_rules_valid_witness :
  valid_money (Total (with_total scenarioA "100000000000000000000.00")) = true
  /\ (let cents := digits_value (filter (fun b => negb (b =? 46))
                     (bytes (Total (with_total scenarioA "100000000000000000000.00")))) in
      round_dollar_points (with_total scenarioA "100000000000000000000.00")
        = (if cents mod 100 =? 0 then 50 else 0)
      /\ quarter_points (with_total scenarioA "100000000000000000000.00")
        = (if (cents <=? int_max) && (cents mod 25 =? 0) then 25 else 0)).
Proof.
  split; [vm_compute; reflexivity|].
  apply total_rules_valid. vm_compute. reflexivity.
Defined.

(** ** The purchase date *)

Lemma digit_not_dash (c : ascii) : isDigit (code c) = true -> Ascii.eqb c "-" = false.
Proof.
  intros H. apply isDigit_bounds in H. rewrite code_eqb. apply Z.eqb_neq.
  change (code "-") with 45. lia.
Qed.

(** On a well-formed date YYYY-MM-DD, strings.Split gives a third piece,
    and the odd-day rule adds 6 exactly when the day DD is odd (a leading
    zero is accepted by Atoi). *)
Theorem odd_day_valid (date : string) :
  valid_date date = true ->
  exists dayPart, nth_error (Split_byte "-" date) 2 = Some dayPart
    /\ odd_day_points dayPart = if Z.odd (digits_value (skipn 8 (bytes date))) then 6 else 0.
Proof.
  intros H.
  destruct date as [|y1 [|y2 [|y3 [|y4 [|h1 [|m1 [|m2 [|h2 [|d1 [|d2 [|]]]]]]]]]]];
    try discriminate.
  unfold valid_date in H. apply andb_true_iff in H as [H Hh2].
  apply andb_true_iff in H as [H Hh1].
  apply Ascii.eqb_eq in Hh1, Hh2. subst h1 h2.
  simpl in H. rewrite !andb_true_r in H.
  repeat match goal with
         | H : _ && _ = true |- _ => apply andb_true_iff in H as [? ?]
         end.
  simpl Split_byte.
  repeat rewrite digit_not_dash by assumption.
  change (Ascii.eqb "-" "-") with true. cbv iota.
  eexists. split; [reflexivity|].
  unfold odd_day_points, Atoi.
  change (bytes (String d1 (String d2 EmptyString))) with [code d1; code d2].
  change (skipn 8 (bytes (String y1 (String y2 (String y3 (String y4 (String "-"
    (String m1 (String m2 (String "-" (String d1 (String d2 EmptyString))))))))))))
    with [code d1; code d2].
  assert (Hd : forallb isDigit [code d1; code d2] = true) by (simpl; rewrite !andb_true_iff; tauto).
  rewrite Atoi_bytes_digits by (discriminate || exact Hd).
  pose proof (digits_fold_ge [code d1; code d2] 0 Hd ltac:(lia)) as Hge.
  pose proof (digits_fold_lt [code d1; code d2] 0 Hd ltac:(lia)) as Hlt.
  fold (digits_value [code d1; code d2]) in Hge, Hlt. simpl length in Hlt.
  set (v := digits_value [code d1; code d2]) in *.
  assert (Hle : v <= int_max) by (unfold int_max; lia).
  rewrite Z.min_l by exact Hle. rewrite (proj2 (Z.leb_le _ _) Hle).
  rewrite Z.rem_mod_nonneg, Zmod_odd by lia.
  destruct (Z.odd v); reflexivity.
Qed.

Lemma odd_day_valid_witness :
  valid_date "2022-01-07" = true
  /\ exists dayPart, nth_error (Split_byte "-" "2022-01-07") 2 = Some dayPart
    /\ odd_day_points dayPart = if Z.odd (digits_value (skipn 8 (bytes "2022-01-07"))) then 6 else 0.
Proof.
  split; [reflexivity|]. apply odd_day_valid. reflexivity.
Defined.



(** ** time.Parse("15:04") *)

Ltac bool_facts :=
  repeat match goal with
         | H : negb _ = false |- _ => apply negb_false_iff in H
         | H : _ && _ = true |- _ => apply andb_true_iff in H as [? ?]
         | H : (_ <? _) = true |- _ => apply Z.ltb_lt in H
         | H : (_ <=? _) = true |- _ => apply Z.leb_le in H
         | H : (_ =? _) = true |- _ => apply Z.eqb_eq in H
         end.

Ltac digits_true :=
  cbn; repeat match goal with
              | H : isDigit ?x = true |- context [isDigit ?x] => rewrite H
              end; reflexivity.

(** time.Parse with the layout "15:04" accepts exactly an hour of one or two
    digits below 24, a colon and a minute of two digits below 60, with
    nothing before or after; "9:30" is accepted with hour 9, while "09:5",
    "24:00" and "12:30pm" are rejected, and then no afternoon bonus is
    given. *)
Theorem time_Parse_15_04_iff (s : string) (hour min : Z) :
  time_Parse_15_04 s = Some (hour, min) <->
  exists hd mm, bytes s = hd ++ 58 :: mm
    /\ (length hd = 1 \/ length hd = 2)%nat /\ length mm = 2%nat
    /\ forallb isDigit (hd ++ mm) = true
    /\ hour = digits_value hd /\ hour < 24 /\ min = digits_value mm /\ min < 60.
Proof.
  split.
  - unfold time_Parse_15_04. intros H.
    destruct (bytes s) as [|a [|b [|c [|d [|e [|f l]]]]]] eqn:Hs;
      cbn [getnum] in H;
      repeat (match type of H with
              | context [if ?c then _ else _] => destruct c eqn:?
              end; cbn in H; try discriminate);
      try discriminate;
      injection H as <- <-; bool_facts; subst.
    + exists [a], [c; d]. repeat split; try reflexivity; try digits_true;
        unfold digits_value; cbn; lia.
    + exists [a; b], [d; e]. repeat split; try reflexivity; try digits_true;
        unfold digits_value; cbn; lia.
  - intros [hd [mm [Hs [Hlen [Hmm [Hdig [-> [Hh [-> Hm]]]]]]]]].
    unfold time_Parse_15_04. rewrite Hs.
    destruct mm as [|m1 [|m2 [|]]]; try discriminate.
    destruct hd as [|h1 [|h2 [|]]]; simpl in Hlen; try lia;
      cbn in Hdig; bool_facts;
      repeat match goal with H : isDigit ?x = true |- _ =>
               pose proof (isDigit_bounds x H); revert H end; intros;
      unfold digits_value in *; cbn in *;
      repeat (cbn; first
        [ match goal with H : isDigit ?x = true |- context [isDigit ?x] => rewrite H end
        | match goal with |- context [?x <=? ?y] => rewrite (proj2 (Z.leb_le x y)) by lia end
        | match goal with |- context [?x <? ?y] => rewrite (proj2 (Z.ltb_lt x y)) by lia end ]);
      f_equal; f_equal; lia.
Qed.

(** ** strings.TrimSpace and the description rule *)

Lemma space_width_le (l : list Z) : (space_width l <= length l)%nat.
Proof.
  unfold space_width. destruct l as [|x1 [|x2 [|x3 l]]]; simpl;
    repeat match goal with |- context [if ?c then _ else _] => destruct c end; simpl; lia.
Qed.

Lemma trim_with_nil (f : nat) : trim_with space_width f nil = nil.
Proof. destruct f; reflexivity. Qed.

Lemma trim_with_fuel (f1 f2 : nat) (l : list Z) :
  (length l <= f1)%nat -> (length l <= f2)%nat ->
  trim_with space_width f1 l = trim_with space_width f2 l.
Proof.
  revert f2 l. induction f1 as [|g1 IH]; intros f2 l H1 H2.
  - destruct l; [|simpl in H1; lia]. rewrite !trim_with_nil. reflexivity.
  - destruct f2 as [|g2].
    + destruct l; [|simpl in H2; lia]. reflexivity.
    + simpl. pose proof (space_width_le l) as Hw.
      destruct (space_width l) as [|k] eqn:E; [reflexivity|].
      apply IH; rewrite length_skipn; lia.
Qed.

Lemma ascii_space_le (b : Z) : ascii_space b = true -> 9 <= b <= 32.
Proof.
  unfold ascii_space, in_range. intros H.
  apply orb_true_iff in H as [H|H].
  - apply andb_true_iff in H as [H1 H2]. apply Z.leb_le in H1, H2. lia.
  - apply Z.eqb_eq in H. lia.
Qed.

Lemma space_width_snoc (l : list Z) (b : Z) :
  l <> nil -> ascii_space b = true -> space_width (l ++ [b]) = space_width l.
Proof.
  intros Hne Hb. apply ascii_space_le in Hb.
  assert (F : forall k, 128 <= k -> (b =? k) = false) by (intros k Hk; apply Z.eqb_neq; lia).
  assert (R : in_range 128 138 b = false)
    by (unfold in_range; apply andb_false_iff; left; apply Z.leb_gt; lia).
  destruct l as [|x1 [|x2 [|x3 l]]]; [congruence| | |reflexivity]; unfold space_width; cbn [app].
  - rewrite (F 133), (F 160) by lia. rewrite andb_false_r. reflexivity.
  - rewrite R, (F 128), (F 168), (F 169), (F 175), (F 159) by lia.
    rewrite !andb_false_r. reflexivity.
Qed.

Lemma trim_left_snoc (b : Z) (f : nat) (l : list Z) :
  ascii_space b = true -> (S (length l) <= f)%nat ->
  trim_with space_width f (l ++ [b])
  = match trim_with space_width (length l) l with
    | nil => nil
    | l' => l' ++ [b]
    end.
Proof.
  intros Hb. revert l. induction f as [|g IH]; intros l Hf; [lia|].
  destruct l as [|x l0].
  - simpl. rewrite Hb. apply trim_with_nil.
  - cbn [trim_with length].
    rewrite space_width_snoc by (discriminate || exact Hb).
    pose proof (space_width_le (x :: l0)) as Hw.
    destruct (space_width (x :: l0)) as [|k] eqn:E; [reflexivity|].
    simpl in Hw.
    rewrite List.skipn_app.
    replace (S k - length (x :: l0))%nat with 0%nat by (simpl; lia).
    rewrite IH by (rewrite length_skipn; simpl in *; lia).
    rewrite (trim_with_fuel (length (skipn (S k) (x :: l0))) (length l0))
      by (rewrite length_skipn; simpl; lia).
    reflexivity.
Qed.

Lemma TrimSpace_cons_space (c : ascii) (s : string) :
  ascii_space (code c) = true -> TrimSpace (String c s) = TrimSpace s.
Proof.
  intros Hc. unfold TrimSpace, TrimLeftSpace. rewrite bytes_String.
  cbn [length trim_with space_width]. rewrite Hc. reflexivity.
Qed.

Lemma TrimRightSpace_snoc_space (l : list Z) (b : Z) :
  ascii_space b = true -> TrimRightSpace (l ++ [b]) = TrimRightSpace l.
Proof.
  intros Hb. unfold TrimRightSpace.
  rewrite rev_app_distr, length_app, Nat.add_comm. simpl. rewrite Hb. reflexivity.
Qed.

Lemma TrimSpace_snoc_space (c : ascii) (s : string) :
  ascii_space (code c) = true -> TrimSpace (s ++ String c EmptyString) = TrimSpace s.
Proof.
  intros Hc. unfold TrimSpace, TrimLeftSpace.
  rewrite bytes_app. change (bytes (String c EmptyString)) with [code c].
  rewrite trim_left_snoc by (exact Hc || (rewrite length_app; simpl; lia)).
  destruct (trim_with space_width (length (bytes s)) (bytes s)) as [|x l'].
  - reflexivity.
  - apply TrimRightSpace_snoc_space, Hc.
Qed.

(** The description rule ignores ASCII white space (tab, line feed,
    vertical tab, form feed, carriage return, space) added at either end of
    the description: strings.TrimSpace removes it before the length is
    taken. *)
Theorem description_points_pad (c : ascii) (d price : string) :
  ascii_space (code c) = true ->
  description_points (mkItem (String c d) price) = description_points (mkItem d price)
  /\ description_points (mkItem (d ++ String c EmptyString) price)
     = description_points (mkItem d price).
Proof.
  intros Hc. unfold description_points. simpl.
  rewrite TrimSpace_cons_space, TrimSpace_snoc_space by exact Hc. split; reflexivity.
Qed.

Lemma description_points_pad_witness :
  ascii_space (code " ") = true
  /\ description_points (mkItem (String " " "Gatorade") "2.25")
       = description_points (mkItem "Gatorade" "2.25")
  /\ description_points (mkItem ("Gatorade" ++ String " " EmptyString) "2.25")
       = description_points (mkItem "Gatorade" "2.25").
Proof.
  split; [reflexivity|]. apply description_points_pad. reflexivity.
Defined.

(** ** getPoints after any run *)

Lemma getPoints_lookup (id : string) (receiptStore : Store) :
  getPoints id receiptStore =
  (receiptStore,
   match receiptStore !! id with
   | None => NotFound
   | Some receipt =>
       if (count_byte "-" (PurchaseDate receipt) <? 2)%nat then InternalError
       else PointsResponse (wrap64 (exact_points receipt))
   end).
Proof.
  unfold getPoints, lookupReceipt.
  destruct (receiptStore !! id) as [receipt|]; [|reflexivity].
  destruct (Nat.ltb_spec (count_byte "-" (PurchaseDate receipt)) 2) as [Hc|Hc].
  - apply calculatePoints_None_iff in Hc. rewrite Hc. reflexivity.
  - destruct (Split_byte_third "-" (PurchaseDate receipt) Hc) as [d Hd].
    rewrite (calculatePoints_sum receipt d Hd). reflexivity.
Qed.

(** After any run of requests, getPoints for [id] leaves the store as it is
    and answers 404 when no successful processReceipt used [id]; otherwise it
    scores the receipt of the last one that did: 500 when its purchase date
    has fewer than two '-', else the sum of the rules with Go int
    wrap-around. *)
Theorem getPoints_run (reqs : list Request) (id : string) :
  getPoints id (run reqs) =
  (run reqs,
   match last_registered id reqs with
   | None => NotFound
   | Some receipt =>
       if (count_byte "-" (PurchaseDate receipt) <? 2)%nat then InternalError
       else PointsResponse (wrap64 (exact_points receipt))
   end).
Proof.
  rewrite getPoints_lookup. f_equal.
  unfold run, last_registered. rewrite run_lookup_from. reflexivity.
Qed.

(** ** The odd-day rule and the sign of the remainder *)

(** The odd-day rule adds 6 exactly when Atoi reads the third piece of the
    date without error as a positive odd number: Go's [%] keeps the sign of
    the dividend, so an odd negative day (remainder -1) gets nothing. *)
Theorem odd_day_points_iff (dayPart : string) :
  odd_day_points dayPart = 6 <->
  exists day, Atoi dayPart = (day, NoErr) /\ 0 < day /\ Z.odd day = true.
Proof.
  unfold odd_day_points. destruct (Atoi dayPart) as [day err].
  split.
  - destruct err; try discriminate.
    destruct (Z.eqb_spec (Z.rem day 2) 1) as [Hr|]; [|discriminate]. intros _.
    exists day. split; [reflexivity|].
    destruct (Z.le_gt_cases day 0) as [Hle|Hgt].
    + pose proof (Z.rem_nonpos day 2 ltac:(lia) Hle). lia.
    + split; [exact Hgt|].
      rewrite Z.rem_mod_nonneg in Hr by lia. rewrite Zmod_odd in Hr.
      destruct (Z.odd day); [reflexivity|discriminate].
  - intros [d [Hd [Hpos Hodd]]]. injection Hd as -> ->.
    rewrite Z.rem_mod_nonneg, Zmod_odd, Hodd by lia. reflexivity.
Qed.

(** ** The quarter rule and the discarded Atoi error *)



